(** * Discounted returns of a trajectory: [maro/rl/utils/trajectory_utils.py]

    A shallow embedding of [get_k_step_returns] and [get_lambda_returns]
    and the properties of their specification.

    Modelling choices.
    - Numbers.  NumPy arrays of floats and Python floats are idealised as
      exact rationals ([Qc], canonical rationals with Leibniz equality);
      rounding and dtype conversion are not modelled.
    - Arrays.  A one-dimensional [ndarray] is a [list Qc] together with its
      element type, the default integer type or the default float type.
      The element type matters where an array is written in place: a float
      written into an integer array is rounded toward zero, and raises when
      it is out of range.
    - Mutation.  [rewards] and [values] are Python objects passed by
      reference, so they are locations of a store; the two arguments may
      name the same object.
    - Failure.  A raised exception is a [Raise e] result; store updates made
      before the exception stay in the store. *)

From Stdlib Require Import ZArith QArith Qcanon Lia.
From stdpp Require Import base numbers list.

Local Open Scope Z_scope.

(** ** Exceptions and results *)

Inductive exn : Type :=
  | AssertionError
  | IndexError
  | TypeError
  | ValueError
  | ZeroDivisionError
  | OverflowError.

Inductive result (A : Type) : Type :=
  | Ok (a : A)
  | Raise (e : exn).
Arguments Ok {A} a.
Arguments Raise {A} e.

#[global] Instance result_ret : MRet result := fun A a => Ok a.
#[global] Instance result_bind : MBind result := fun A B f r =>
  match r with
  | Ok a => f a
  | Raise e => Raise e
  end.

(** ** The store of arrays *)

Abbreviation array := (list Qc).
Definition loc : Type := nat.

(** The element type of an array: NumPy's default integer type and its
    default float type. *)
Inductive dtype : Type :=
  | Int64
  | Float64.

(** The store gives every array object its contents and its element type;
    [h l] is the contents of the array at [l]. *)
Record store : Type := Store {
  contents :> loc -> array;
  dtypes : loc -> dtype
}.

(** New contents for the array at [l]; element types never change. *)
Definition store_set (h : store) (l : loc) (a : array) : store :=
  Store (fun l' => if decide (l' = l) then a else h l') (dtypes h).

(** Computations that read and write the store and may raise. *)
Definition M (A : Type) : Type := store -> store * result A.

#[global] Instance M_ret : MRet M := fun A a h => (h, Ok a).
#[global] Instance M_bind : MBind M := fun A B f m h =>
  match m h with
  | (h', Ok a) => f a h'
  | (h', Raise e) => (h', Raise e)
  end.

Definition read (l : loc) : M array := fun h => (h, Ok (h l)).
Definition read_dtype (l : loc) : M dtype := fun h => (h, Ok (dtypes h l)).
Definition raise {A : Type} (e : exn) : M A := fun h => (h, Raise e).
Definition lift {A : Type} (r : result A) : M A := fun h => (h, r).

(** ** Python and NumPy primitives *)

(** [len(a)] *)
Definition len (a : array) : Z := Z.of_nat (length a).

(** [a[-1]] *)
Definition index_last (a : array) : result Qc :=
  match last a with
  | Some x => Ok x
  | None => Raise IndexError
  end.

(** [int(x)]: the integer part, rounding toward zero *)
Definition trunc (x : Qc) : Z := Z.quot (Qnum x) (Z.pos (Qden x)).

Definition int64_min : Z := - 2 ^ 63.
Definition int64_max : Z := 2 ^ 63 - 1.

(** What an array of element type [dst] stores on [a[i] = x], for a scalar
    [x] read from an array of element type [src]: a float written into an
    integer array is converted with [int(x)], which raises when the integer
    does not fit; in every other case the value is stored as it is. *)
Definition cast (src dst : dtype) (x : Qc) : result Qc :=
  match src, dst with
  | Float64, Int64 =>
      if (int64_min <=? trunc x) && (trunc x <=? int64_max)
      then Ok (Q2Qc (inject_Z (trunc x)))
      else Raise OverflowError
  | _, _ => Ok x
  end.

(** [a[-1] = x], on the array object at [l], for a scalar [x] of element
    type [src] *)
Definition write_last (src : dtype) (l : loc) (x : Qc) : M unit := fun h =>
  match h l with
  | [] => (h, Raise IndexError)
  | a =>
      match cast src (dtypes h l) x with
      | Ok y => (store_set h l (<[Nat.pred (length a) := y]> a), Ok tt)
      | Raise e => (h, Raise e)
      end
  end.

(** [a[i:]]; a negative [i] counts from the end *)
Definition slice_from (a : array) (i : Z) : array :=
  if i <? 0 then drop (Z.to_nat (Z.max 0 (len a + i))) a
  else drop (Z.to_nat i) a.

(** [np.pad(a, (0, n))]: [n] zeros after [a]; a negative width is refused *)
Definition np_pad (a : array) (n : Z) : result array :=
  if n <? 0 then Raise ValueError
  else Ok (a ++ replicate (Z.to_nat n) 0%Qc).

(** [np.zeros(n)] *)
Definition np_zeros (n : Z) : result array :=
  if n <? 0 then Raise ValueError
  else Ok (replicate (Z.to_nat n) 0%Qc).

(** [a * c], array by scalar *)
Definition scale (a : array) (c : Qc) : array := (fun x => (x * c)%Qc) <$> a.

(** [x + y] on one-dimensional arrays, with NumPy broadcasting: equal
    lengths add elementwise, a length-one operand is stretched, anything
    else is a shape mismatch. *)
Definition np_add (x y : array) : result array :=
  if decide (length x = length y) then Ok (zip_with Qcplus x y)
  else match x, y with
       | [a], _ => Ok ((fun b => (a + b)%Qc) <$> y)
       | _, [b] => Ok ((fun a => (a + b)%Qc) <$> x)
       | _, _ => Raise ValueError
       end.

(** [range(start, stop, -1)] *)
Definition range_down (start stop : Z) : list Z :=
  (fun i : nat => start - Z.of_nat i) <$> seq 0 (Z.to_nat (start - stop)).

(** [functools.reduce(f, l, init)] *)
Fixpoint reduce {A B : Type} (f : A -> B -> result A) (l : list B) (init : A)
  : result A :=
  match l with
  | [] => Ok init
  | y :: l' => x ← f init y; reduce f l' x
  end.

(** [functools.reduce(f, l)]: an empty [l] is a [TypeError] *)
Definition reduce1 {A : Type} (f : A -> A -> result A) (l : list A)
  : result A :=
  match l with
  | [] => Raise TypeError
  | x :: l' => reduce f l' x
  end.

(** [x ** e] for a float [x] and an int [e] *)
Definition py_pow (x : Qc) (e : Z) : result Qc :=
  if e <? 0 then
    if decide (x = 0%Qc) then Raise ZeroDivisionError
    else Ok (/ (x ^ Z.to_nat (- e)))%Qc
  else Ok (x ^ Z.to_nat e)%Qc.

(** ** [get_k_step_returns] *)

Definition get_k_step_returns
  (rewards : loc) (discount : Qc) (k : Z) (values : option loc) : M array :=
  (* assert values is None or len(rewards) == len(values) *)
  same ← match values with
         | None => mret true
         | Some v =>
             rs ← read rewards; vs ← read v;
             mret (bool_decide (len rs = len vs))
         end;
  if negb same then raise AssertionError else
  (* if values is not None: rewards[-1] = values[-1] *)
  _ ← match values with
      | Some v =>
          vs ← read v; x ← lift (index_last vs); d ← read_dtype v;
          write_last d rewards x
      | None => mret tt
      end;
  (* if k < 0: k = len(rewards) - 1 *)
  rs ← read rewards;
  let k := if k <? 0 then len rs - 1 else k in
  (* [np.pad(rewards[i:], (0, i)) for i in range(min(k, len(rewards))-1, -1, -1)] *)
  shifted ← lift (mapM (fun i => np_pad (slice_from rs i) i)
                       (range_down (Z.min k (len rs) - 1) (-1)));
  (* np.pad(values[k:], (0, k)) if values is not None else np.zeros(len(rewards)) *)
  init ← match values with
         | Some v => vs ← read v; lift (np_pad (slice_from vs k) k)
         | None => lift (np_zeros (len rs))
         end;
  lift (reduce (fun x y => np_add (scale x discount) y) shifted init).

(** ** [get_lambda_returns] *)

Definition get_lambda_returns
  (rewards : loc) (discount lmda : Qc) (values : option loc)
  (truncate_steps : Z) : M array :=
  rs ← read rewards;
  (* if truncate_steps < 0: truncate_steps = len(rewards) - 1 *)
  let truncate_steps :=
    if truncate_steps <? 0 then len rs - 1 else truncate_steps in
  (* if lmda == .0 *)
  if decide (lmda = 0%Qc) then get_k_step_returns rewards discount 1 values
  (* if lmda == 1.0 *)
  else if decide (lmda = 1%Qc) then
    get_k_step_returns rewards discount truncate_steps values
  else
    let truncate_steps := Z.min truncate_steps (len rs - 1) in
    rets ← mapM (fun k => get_k_step_returns rewards discount k values)
                (range_down (truncate_steps - 1) 0);
    pre_truncate ← lift (reduce1 (fun x y => np_add (scale x lmda) y) rets);
    r ← get_k_step_returns rewards discount truncate_steps values;
    w ← lift (py_pow lmda (truncate_steps - 1));
    let post_truncate := scale r w in
    lift (np_add (scale pre_truncate (1 - lmda)%Qc) post_truncate).

(** ** The sample run at the end of the module *)

Definition qc (n : Z) (d : positive) : Qc := Q2Qc (n # d).

Definition rw : array := [qc 3 1; qc 2 1; qc 4 1; qc 1 1; qc 5 1].
Definition vals : array := [qc 4 1; qc 7 1; qc 1 1; qc 3 1; qc 6 1].

(** The store with no array yet, and one more array in a store. *)
Definition empty_store : store := Store (fun _ => []) (fun _ => Float64).

Definition alloc (h : store) (l : loc) (d : dtype) (a : array) : store :=
  Store (fun l' => if decide (l' = l) then a else h l')
        (fun l' => if decide (l' = l) then d else dtypes h l').

(** A store with [rs] at location 0 and [vs] at location 1, of element
    types [dr] and [dv]. *)
Definition typed_store (dr dv : dtype) (rs vs : array) : store :=
  alloc (alloc empty_store 0%nat dr rs) 1%nat dv vs.

(** The same with two float arrays. *)
Definition store_of (rs vs : array) : store := typed_store Float64 Float64 rs vs.

(** The store of the sample run: [np.asarray] of integer lists gives two
    integer arrays. *)
Definition sample_store : store := typed_store Int64 Int64 rw vals.

(** The numerators and denominators of a result: what a run shows. *)
Definition show (r : result array) : result (list (Z * positive)) :=
  match r with
  | Ok a => Ok ((fun x : Qc => (Qnum x, Qden x)) <$> a)
  | Raise e => Raise e
  end.

(** ** Reading arrays pointwise, finite sums *)

(** [a[j]] when [j] is in range and [0] otherwise. *)
Definition at0 (a : array) (j : nat) : Qc := default 0%Qc (a !! j).

(** The sum of [f n] for [n = lo, lo+1, ..., lo+cnt-1]. *)
Definition sum_range (lo cnt : nat) (f : nat -> Qc) : Qc :=
  foldr Qcplus 0%Qc (f <$> seq lo cnt).

(** ** The lines of [get_k_step_returns] after the overwrite

    Lines 26 to 30 read the arrays and write nothing: they are a function of
    the contents of [rewards] and [values] at that point. *)

Definition k_step_core
  (rs : array) (discount : Qc) (k : Z) (vs : option array) : result array :=
  let k := if k <? 0 then len rs - 1 else k in
  shifted ← mapM (fun i => np_pad (slice_from rs i) i)
                 (range_down (Z.min k (len rs) - 1) (-1));
  init ← match vs with
         | Some vs => np_pad (slice_from vs k) k
         | None => np_zeros (len rs)
         end;
  reduce (fun x y => np_add (scale x discount) y) shifted init.

(** The store after [rewards[-1] = values[-1]]; the store itself where the
    assignment raises or there are no values. *)
Definition overwrite (h : store) (rewards : loc) (values : option loc) : store :=
  match values with
  | Some v =>
      match last (h v) with
      | Some x =>
          match cast (dtypes h v) (dtypes h rewards) x with
          | Ok y =>
              store_set h rewards
                (<[Nat.pred (length (h rewards)) := y]> (h rewards))
          | Raise _ => h
          end
      | None => h
      end
  | None => h
  end.

(** The last value, when there are values, can be written into the rewards
    array: the conversion to its element type does not raise. *)
Definition storable (h : store) (rewards : loc) (values : option loc) : Prop :=
  forall v x, values = Some v -> last (h v) = Some x ->
    exists y, cast (dtypes h v) (dtypes h rewards) x = Ok y.

(** The last value is written into the rewards array as it is: always into a
    float array, and into an integer array when it comes from an integer
    array. *)
Definition stored_unchanged (h : store) (rewards : loc) (values : option loc)
  : Prop :=
  forall v x, values = Some v -> last (h v) = Some x ->
    cast (dtypes h v) (dtypes h rewards) x = Ok x.

(** ** The formulas of the specification *)

(** [reward(j)]: [rewards[j]] for [j < N] and [0] beyond, read in the
    array whose last entry has been replaced by the last value when values
    are supplied. *)
Definition spec_reward (rs : array) (vs : option array) (j : nat) : Qc :=
  if decide (j < length rs)%nat then
    match vs with
    | Some vs =>
        if decide (j = length rs - 1)%nat then at0 vs (length rs - 1)
        else at0 rs j
    | None => at0 rs j
    end
  else 0%Qc.

(** [bootstrap(j)]: [values[j]] if values are supplied and [j < N], else [0]. *)
Definition spec_bootstrap (rs : array) (vs : option array) (j : nat) : Qc :=
  match vs with
  | Some vs => if decide (j < length rs)%nat then at0 vs j else 0%Qc
  | None => 0%Qc
  end.

(** [R_t(K') = sum_{i=0}^{K'-1} gamma^i reward(t+i) + gamma^K' bootstrap(t+K')] *)
Definition spec_k_step
  (rs : array) (vs : option array) (discount : Qc) (K' t : nat) : Qc :=
  (sum_range 0 K' (fun i => discount ^ i * spec_reward rs vs (t + i))
   + discount ^ K' * spec_bootstrap rs vs (t + K'))%Qc.

(** [G_t = (1-lambda) sum_{n=1}^{T'-1} lambda^(n-1) R_t(n) + lambda^(T'-1) R_t(T')],
    for a family [R] of per-horizon return arrays. *)
Definition spec_lambda (R : nat -> array) (lmda : Qc) (T' t : nat) : Qc :=
  ((1 - lmda) * sum_range 1 (T' - 1) (fun n => lmda ^ (n - 1) * at0 (R n) t)
   + lmda ^ (T' - 1) * at0 (R T') t)%Qc.

(** ** Definitions used in the proofs *)

(** A window that starts at [i], padded back to the length of the array. *)
Definition shifted (a : array) (i : nat) : array := drop i a ++ replicate i 0%Qc.

(** [x * c + y] on arrays of one length. *)
Definition horner_step (c : Qc) (x y : array) : array :=
  zip_with Qcplus (scale x c) y.

(** The horizon after the sentinel is resolved. *)
Definition resolve (N : nat) (k : Z) : Z :=
  if k <? 0 then Z.of_nat N - 1 else k.

(** Lines 60 to 66, for a horizon [T'] that is already clamped. *)
Definition lambda_general
  (rewards : loc) (discount lmda : Qc) (values : option loc) (T' : Z) : M array :=
  rets ← mapM (fun k => get_k_step_returns rewards discount k values)
              (range_down (T' - 1) 0);
  pre_truncate ← lift (reduce1 (fun x y => np_add (scale x lmda) y) rets);
  r ← get_k_step_returns rewards discount T' values;
  w ← lift (py_pow lmda (T' - 1));
  lift (np_add (scale pre_truncate (1 - lmda)%Qc) (scale r w)).

(** The array returned by [get_k_step_returns] for horizon [n] on the
    inputs held by [h]. *)
Definition k_step_output (rewards : loc) (discount : Qc) (values : option loc)
  (h : store) (n : nat) : array :=
  match (get_k_step_returns rewards discount (Z.of_nat n) values h).2 with
  | Ok a => a
  | Raise _ => []
  end.

(** Entry [t] of the fold of lines 28 to 30 over rewards [rs] and values [vs],
    for a horizon [K'] between 0 and the length of [rs]. *)
Definition k_step_value
  (rs : array) (vs : option array) (discount : Qc) (K' t : nat) : Qc :=
  (sum_range 0 K' (fun i => discount ^ i * at0 rs (t + i))
   + discount ^ K' * match vs with
                     | Some a => at0 a (t + K')
                     | None => 0
                     end)%Qc.

(** [get_lambda_returns] calls [get_k_step_returns] several times on the same
    objects, and every call repeats the overwrite.  [settled h g] says that a
    call on the store [g] sees the values and the overwritten rewards that a
    call on [h] sees. *)
Definition settled (rewards : loc) (values : option loc) (h g : store) : Prop :=
  dtypes g = dtypes h
  /\ (forall v, values = Some v -> g v = h v)
  /\ overwrite g rewards values rewards = overwrite h rewards values rewards.

(** What a call with horizon [k] returns on the inputs of [h]. *)
Definition returns_of (rewards : loc) (values : option loc) (h : store)
  (discount : Qc) (k : Z) (out : array) : Prop :=
  length out = length (h rewards)
  /\ forall t, (t < length (h rewards))%nat ->
       at0 out t
       = k_step_value (overwrite h rewards values rewards) (h <$> values)
           discount (Z.to_nat k) t.

(** Two stores that hold the same array at every location. *)
Definition same_store (g1 g2 : store) : Prop := forall l, g1 l = g2 l.

(** The values, when supplied, are nonempty and as long as the rewards: the
    assertion passes and [values[-1]] exists. *)
Definition aligned (rewards : loc) (values : option loc) (g : store) : Prop :=
  forall v, values = Some v -> length (g rewards) = length (g v) /\ g v <> [].

(** Unfolds the binds of the two monads. *)
Ltac run_M :=
  unfold mbind, M_bind, result_bind, mret, M_ret, result_ret, read, lift, raise;
  cbn beta iota delta [negb].

(** * Proofs *)

(** ** Lemmas on the primitives *)

Lemma sum_range_0 lo f : sum_range lo 0 f = 0%Qc.
Proof. reflexivity. Qed.

Lemma sum_range_S_l lo cnt f :
  sum_range lo (S cnt) f = (f lo + sum_range (S lo) cnt f)%Qc.
Proof. reflexivity. Qed.

Lemma sum_range_S_r lo cnt f :
  sum_range lo (S cnt) f = (sum_range lo cnt f + f (lo + cnt)%nat)%Qc.
Proof.
  revert lo. induction cnt as [|cnt IH]; intros lo.
  - unfold sum_range. simpl. rewrite Nat.add_0_r. ring.
  - rewrite sum_range_S_l, IH, (sum_range_S_l lo cnt).
    replace (S lo + cnt)%nat with (lo + S cnt)%nat by lia. ring.
Qed.

Lemma sum_range_ext lo cnt f g :
  (forall n, (lo <= n < lo + cnt)%nat -> f n = g n) ->
  sum_range lo cnt f = sum_range lo cnt g.
Proof.
  revert lo. induction cnt as [|cnt IH]; intros lo Hfg; [reflexivity|].
  rewrite !sum_range_S_l, Hfg by lia. f_equal. apply IH. intros; apply Hfg; lia.
Qed.

Lemma sum_range_shift lo cnt f :
  sum_range (S lo) cnt f = sum_range lo cnt (fun n => f (S n)).
Proof.
  unfold sum_range. by rewrite <- fmap_S_seq, <- list_fmap_compose.
Qed.

Lemma at0_lookup (a : array) j : (j < length a)%nat -> a !! j = Some (at0 a j).
Proof.
  intros Hj. unfold at0. destruct (a !! j) as [x|] eqn:E; [reflexivity|].
  apply lookup_ge_None in E. lia.
Qed.

Lemma at0_ge (a : array) j : (length a <= j)%nat -> at0 a j = 0%Qc.
Proof. intros Hj. unfold at0. by rewrite lookup_ge_None_2. Qed.

Lemma length_shifted a i : (i <= length a)%nat -> length (shifted a i) = length a.
Proof.
  intros Hi. unfold shifted. rewrite length_app, length_drop, length_replicate.
  lia.
Qed.

Lemma at0_shifted a i t :
  (i <= length a)%nat -> (t < length a)%nat ->
  at0 (shifted a i) t = at0 a (t + i).
Proof.
  intros Hi Ht. unfold at0, shifted.
  destruct (decide (t < length a - i)%nat) as [Hlt|Hge].
  - rewrite lookup_app_l by (rewrite length_drop; lia).
    rewrite lookup_drop. by rewrite (Nat.add_comm i t).
  - rewrite lookup_app_r by (rewrite length_drop; lia).
    rewrite lookup_replicate_2 by (rewrite length_drop; lia).
    by rewrite (lookup_ge_None_2 a (t + i)) by lia.
Qed.

Lemma np_pad_slice a (i : Z) :
  0 <= i -> np_pad (slice_from a i) i = Ok (shifted a (Z.to_nat i)).
Proof.
  intros Hi. unfold np_pad, slice_from.
  by destruct (Z.ltb_spec i 0) as [?|_]; [lia|].
Qed.

Lemma mapM_result_Ok {A B : Type} (f : A -> result B) (g : A -> B) l :
  (forall x, x ∈ l -> f x = Ok (g x)) -> mapM f l = Ok (g <$> l).
Proof.
  induction l as [|x l IH]; intros Hf; [reflexivity|].
  simpl. rewrite Hf by left. simpl. rewrite IH; [reflexivity|].
  intros y Hy. apply Hf. by right.
Qed.

Lemma range_down_elem start stop i :
  i ∈ range_down start stop -> stop < i <= start.
Proof.
  unfold range_down. intros (n & -> & Hn)%list_elem_of_fmap.
  apply elem_of_seq in Hn. lia.
Qed.

(** ** The fold [x * c + y] over arrays of one length *)

Lemma np_add_scale c x y :
  length x = length y -> np_add (scale x c) y = Ok (horner_step c x y).
Proof.
  intros Hxy. unfold np_add, scale.
  rewrite decide_True by (by rewrite length_fmap). reflexivity.
Qed.

Lemma length_horner_step c x y :
  length x = length y -> length (horner_step c x y) = length y.
Proof.
  intros Hxy. unfold horner_step, scale.
  rewrite length_zip_with, length_fmap. lia.
Qed.

Lemma at0_horner_step c x y t :
  length x = length y -> (t < length y)%nat ->
  at0 (horner_step c x y) t = (at0 x t * c + at0 y t)%Qc.
Proof.
  intros Hxy Ht. unfold at0 at 1, horner_step, scale.
  rewrite lookup_zip_with, list_lookup_fmap.
  rewrite (at0_lookup x t), (at0_lookup y t) by lia. reflexivity.
Qed.

Lemma reduce_horner c n (L : list array) (acc : array) :
  Forall (fun s => length s = n) L -> length acc = n ->
  exists out,
    reduce (fun x y => np_add (scale x c) y) L acc = Ok out
    /\ length out = n
    /\ forall t, (t < n)%nat ->
         at0 out t
         = fold_left (fun a y => (a * c + y)%Qc) ((fun s => at0 s t) <$> L)
                     (at0 acc t).
Proof.
  intros HL. revert acc. induction HL as [|s L Hs HL IH]; intros acc Hacc.
  - exists acc. by repeat split.
  - simpl. rewrite np_add_scale by congruence. simpl.
    destruct (IH (horner_step c acc s)) as (out & Hout & Hlen & Hat).
    { rewrite length_horner_step; congruence. }
    exists out. repeat split; [done..|].
    intros t Ht. rewrite Hat by done.
    by rewrite at0_horner_step by (congruence || lia).
Qed.

Lemma horner_sum c (g : nat -> Qc) m a :
  fold_left (fun a y => (a * c + y)%Qc)
            ((fun i => g (m - 1 - i)%nat) <$> seq 0 m) a
  = (c ^ m * a + sum_range 0 m (fun i => c ^ i * g i))%Qc.
Proof.
  revert a. induction m as [|m IH]; intros a.
  - simpl. rewrite sum_range_0. ring.
  - rewrite sum_range_S_r. cbn [seq fmap list_fmap fold_left].
    rewrite <- fmap_S_seq, <- list_fmap_compose.
    rewrite (list_fmap_ext _ (fun i => g (m - 1 - i)%nat)).
    2:{ intros i x _. simpl. f_equal. lia. }
    rewrite IH. replace (S m - 1 - 0)%nat with m by lia. simpl. ring.
Qed.

(** ** The sample run

    The two arrays printed at the end of the module, as exact fractions:
    [10.1296, 8.912, 8.64, 5.8, 6] and
    [7.82816, 6.03712, 7.744, 5.8, 6]. *)

Example sample_k_step_returns :
  show (get_k_step_returns 0%nat (qc 4 5) 4 (Some 1%nat) sample_store).2
  = Ok [(6331, 625%positive); (1114, 125%positive); (216, 25%positive);
        (29, 5%positive); (6, 1%positive)].
Proof. vm_compute. reflexivity. Qed.

Example sample_lambda_returns :
  show (get_lambda_returns 0%nat (qc 4 5) (qc 3 5) (Some 1%nat) 3 sample_store).2
  = Ok [(24463, 3125%positive); (18866, 3125%positive); (968, 125%positive);
        (29, 5%positive); (6, 1%positive)].
Proof. vm_compute. reflexivity. Qed.

(** ** [k_step_core] computes the formula *)

Lemma k_step_core_formula (rs : array) (vs : option array) discount k :
  (forall a, vs = Some a -> length a = length rs) ->
  0 <= resolve (length rs) k <= Z.of_nat (length rs) ->
  exists out,
    k_step_core rs discount k vs = Ok out
    /\ length out = length rs
    /\ forall t, (t < length rs)%nat ->
         at0 out t
         = (let K' := Z.to_nat (resolve (length rs) k) in
            sum_range 0 K' (fun i => discount ^ i * at0 rs (t + i))
            + discount ^ K' * match vs with
                              | Some a => at0 a (t + K')
                              | None => 0
                              end)%Qc.
Proof.
  intros Hvs Hk. unfold k_step_core, resolve, len in *.
  set (N := length rs) in *.
  set (k' := if k <? 0 then Z.of_nat N - 1 else k) in *.
  set (m := Z.to_nat k').
  rewrite Z.min_l by lia.
  rewrite (mapM_result_Ok _ (fun i => shifted rs (Z.to_nat i))).
  2:{ intros i Hi%range_down_elem. apply np_pad_slice. lia. }
  cbn [mbind result_bind].
  assert (exists init,
    match vs with
    | Some a => np_pad (slice_from a k') k'
    | None => np_zeros (Z.of_nat N)
    end = Ok init
    /\ length init = N
    /\ forall t, (t < N)%nat ->
         at0 init t = match vs with Some a => at0 a (t + m) | None => 0%Qc end)
    as (init & -> & Hlen & Hinit).
  { destruct vs as [a|].
    - exists (shifted a m). specialize (Hvs a eq_refl).
      split; [apply np_pad_slice; lia|].
      split; [rewrite length_shifted; lia|].
      intros t Ht. apply at0_shifted; lia.
    - exists (replicate N 0%Qc). unfold np_zeros.
      destruct (Z.ltb_spec (Z.of_nat N) 0) as [?|_]; [lia|].
      rewrite Nat2Z.id. split; [done|]. split; [apply length_replicate|].
      intros t Ht. unfold at0. by rewrite lookup_replicate_2. }
  cbn [mbind result_bind].
  destruct (reduce_horner discount N
              ((fun i => shifted rs (Z.to_nat i)) <$> range_down (k' - 1) (-1)) init)
    as (out & Hout & Hlo & Hat); [|done|].
  { apply Forall_fmap, Forall_forall. intros i Hi%range_down_elem. simpl.
    apply length_shifted. lia. }
  exists out. repeat split; [done..|].
  intros t Ht. rewrite Hat, Hinit by done. cbv zeta.
  unfold range_down. rewrite <- !list_fmap_compose.
  replace (Z.to_nat (k' - 1 - -1)) with m by lia.
  rewrite (list_fmap_ext _ (fun i => at0 (shifted rs (m - 1 - i)) t)).
  2:{ intros i x [-> Hx]%lookup_seq. simpl. do 2 f_equal. lia. }
  rewrite (horner_sum discount (fun j => at0 (shifted rs j) t)).
  rewrite Qcplus_comm. f_equal.
  apply sum_range_ext. intros i Hi. f_equal. apply at0_shifted; lia.
Qed.

(** ** [get_k_step_returns] in terms of [overwrite] and [k_step_core] *)

Implicit Types h g : store.

Lemma k_step_no_values rewards discount k h :
  get_k_step_returns rewards discount k None h
  = (h, k_step_core (h rewards) discount k None).
Proof.
  unfold get_k_step_returns, k_step_core. run_M.
  destruct (mapM _ _) as [sh|e]; [|reflexivity]. simpl.
  destruct (np_zeros _) as [init|e]; reflexivity.
Qed.

Lemma k_step_mismatch rewards discount k v h :
  length (h rewards) <> length (h v) ->
  get_k_step_returns rewards discount k (Some v) h = (h, Raise AssertionError).
Proof.
  intros Hne. unfold get_k_step_returns. run_M.
  rewrite bool_decide_eq_false_2; [reflexivity|]. unfold len. lia.
Qed.

Lemma k_step_empty_values rewards discount k v h :
  length (h rewards) = length (h v) -> h v = [] ->
  get_k_step_returns rewards discount k (Some v) h = (h, Raise IndexError).
Proof.
  intros Hlen Hv. unfold get_k_step_returns. run_M.
  rewrite bool_decide_eq_true_2 by (unfold len; lia). simpl.
  by rewrite Hv.
Qed.


Lemma cast_same d x : cast d d x = Ok x.
Proof. by destruct d. Qed.

Lemma cast_to_float d x : cast d Float64 x = Ok x.
Proof. by destruct d. Qed.

Lemma cast_from_int d x : cast Int64 d x = Ok x.
Proof. by destruct d. Qed.

Lemma k_step_values rewards discount k v h x y :
  length (h rewards) = length (h v) ->
  last (h v) = Some x ->
  cast (dtypes h v) (dtypes h rewards) x = Ok y ->
  let h' := overwrite h rewards (Some v) in
  get_k_step_returns rewards discount k (Some v) h
  = (h', k_step_core (h' rewards) discount k (Some (h' v))).
Proof.
  intros Hlen Hlast Hcast.
  unfold get_k_step_returns, k_step_core, overwrite. run_M.
  rewrite bool_decide_eq_true_2 by (unfold len; lia). simpl.
  unfold index_last, write_last, read_dtype. rewrite Hlast.
  destruct (h rewards) as [|r0 rs] eqn:Hrs.
  { destruct (h v); [discriminate Hlast|discriminate Hlen]. }
  rewrite <- Hrs, Hcast.
  destruct (mapM _ _) as [sh|e]; [|reflexivity]. simpl.
  destruct (np_pad _ _) as [init|e]; reflexivity.
Qed.

(** When the conversion of the last value raises, the call raises the same
    and has written nothing. *)
Lemma k_step_cast_raises rewards discount k v h x e :
  length (h rewards) = length (h v) ->
  last (h v) = Some x ->
  cast (dtypes h v) (dtypes h rewards) x = Raise e ->
  get_k_step_returns rewards discount k (Some v) h = (h, Raise e).
Proof.
  intros Hlen Hlast Hcast. unfold get_k_step_returns. run_M.
  rewrite bool_decide_eq_true_2 by (unfold len; lia). simpl.
  unfold index_last, write_last, read_dtype. rewrite Hlast.
  destruct (h rewards) as [|r0 rs] eqn:Hrs.
  { destruct (h v); [discriminate Hlast|discriminate Hlen]. }
  by rewrite <- Hrs, Hcast.
Qed.

(** What [overwrite] leaves in the two arrays. *)

Lemma dtypes_overwrite h rewards values :
  dtypes (overwrite h rewards values) = dtypes h.
Proof.
  unfold overwrite. destruct values as [v|]; [|reflexivity].
  destruct (last (h v)); [|reflexivity].
  by destruct (cast _ _ _).
Qed.

Lemma overwrite_rewards h rewards v x y :
  last (h v) = Some x ->
  cast (dtypes h v) (dtypes h rewards) x = Ok y ->
  overwrite h rewards (Some v) rewards
  = <[Nat.pred (length (h rewards)) := y]> (h rewards).
Proof.
  intros Hx Hy. unfold overwrite. rewrite Hx, Hy. cbn.
  by rewrite decide_True.
Qed.

Lemma overwrite_raises h rewards v x e :
  last (h v) = Some x ->
  cast (dtypes h v) (dtypes h rewards) x = Raise e ->
  overwrite h rewards (Some v) = h.
Proof. intros Hx He. unfold overwrite. by rewrite Hx, He. Qed.

Lemma overwrite_other h rewards values l :
  l <> rewards -> overwrite h rewards values l = h l.
Proof.
  intros Hl. unfold overwrite. destruct values as [v|]; [|reflexivity].
  destruct (last (h v)); [|reflexivity].
  destruct (cast _ _ _); [|reflexivity].
  cbn. by rewrite decide_False.
Qed.

Lemma overwrite_values h rewards v :
  overwrite h rewards (Some v) v = h v.
Proof.
  destruct (decide (v = rewards)) as [->|Hne]; [|by apply overwrite_other].
  destruct (last (h rewards)) as [x|] eqn:Hx.
  - rewrite (overwrite_rewards _ _ _ x x) by (done || apply cast_same).
    apply list_insert_id. by rewrite <- last_lookup.
  - unfold overwrite. by rewrite Hx.
Qed.

Lemma length_overwrite h rewards values :
  length (overwrite h rewards values rewards) = length (h rewards).
Proof.
  unfold overwrite. destruct values as [v|]; [|reflexivity].
  destruct (last (h v)); [|reflexivity].
  destruct (cast _ _ _); [|reflexivity].
  cbn. rewrite decide_True by done. apply length_insert.
Qed.

(** A float rewards array stores every value unchanged, and so does any
    rewards array when the values come from an integer array. *)
Lemma float_rewards_stored_unchanged h rewards values :
  dtypes h rewards = Float64 -> stored_unchanged h rewards values.
Proof. intros Hd v x _ _. rewrite Hd. apply cast_to_float. Qed.

Lemma int_values_stored_unchanged h rewards values :
  (forall v, values = Some v -> dtypes h v = Int64) ->
  stored_unchanged h rewards values.
Proof. intros Hd v x Hv _. rewrite (Hd v Hv). apply cast_from_int. Qed.

Lemma stored_unchanged_storable h rewards values :
  stored_unchanged h rewards values -> storable h rewards values.
Proof. intros H v x Hv Hx. exists x. by apply H. Qed.

Lemma at0_overwrite h rewards values j :
  (forall v, values = Some v ->
     length (h v) = length (h rewards) /\ h rewards <> []) ->
  stored_unchanged h rewards values ->
  (j < length (h rewards))%nat ->
  at0 (overwrite h rewards values rewards) j
  = spec_reward (h rewards) (h <$> values) j.
Proof.
  intros Hv Hst Hj. unfold spec_reward. rewrite decide_True by done.
  destruct values as [v|]; [|reflexivity]. cbn [fmap option_fmap option_map].
  destruct (Hv v eq_refl) as [Hlen Hne].
  destruct (last (h v)) as [x|] eqn:Hx.
  2:{ apply last_None in Hx. destruct (h rewards); [done|]. by rewrite Hx in Hlen. }
  rewrite (overwrite_rewards _ _ _ x x) by (done || by apply Hst).
  replace (length (h rewards) - 1)%nat with (Nat.pred (length (h rewards))) by lia.
  unfold at0. destruct (decide (j = Nat.pred (length (h rewards)))) as [->|Hne'].
  - rewrite list_lookup_insert_eq by lia.
    rewrite last_lookup, Hlen in Hx. by rewrite Hx.
  - by rewrite list_lookup_insert_ne by done.
Qed.

Lemma spec_reward_overwrite h rewards values j :
  (forall v, values = Some v ->
     length (h v) = length (h rewards) /\ h rewards <> []) ->
  stored_unchanged h rewards values ->
  spec_reward (h rewards) (h <$> values) j
  = at0 (overwrite h rewards values rewards) j.
Proof.
  intros Hv Hst. destruct (decide (j < length (h rewards))%nat) as [Hj|Hj].
  - by rewrite at0_overwrite.
  - unfold spec_reward. rewrite decide_False by done.
    by rewrite at0_ge by (rewrite length_overwrite; lia).
Qed.

(** One call, for a horizon that is the sentinel or at most [N], when the
    last value can be written: the store after it, and the returned array
    pointwise. *)
Lemma k_step_run h rewards values discount K :
  (1 <= length (h rewards))%nat ->
  (forall v, values = Some v -> length (h v) = length (h rewards)) ->
  storable h rewards values ->
  0 <= resolve (length (h rewards)) K <= Z.of_nat (length (h rewards)) ->
  exists out,
    get_k_step_returns rewards discount K values h
    = (overwrite h rewards values, Ok out)
    /\ length out = length (h rewards)
    /\ forall t, (t < length (h rewards))%nat ->
         at0 out t
         = k_step_value (overwrite h rewards values rewards) (h <$> values)
             discount (Z.to_nat (resolve (length (h rewards)) K)) t.
Proof.
  intros HN Hv Hst HK.
  set (h' := overwrite h rewards values).
  assert (Hlen' : length (h' rewards) = length (h rewards))
    by apply length_overwrite.
  assert (Hvals : h' <$> values = h <$> values).
  { destruct values as [v|]; [|reflexivity]. cbn [fmap option_fmap option_map].
    subst h'. by rewrite overwrite_values. }
  destruct (k_step_core_formula (h' rewards) (h' <$> values) discount K)
    as (out & Hout & Hlo & Hat).
  { intros a Ha. rewrite Hvals in Ha. destruct values as [v|]; [|discriminate].
    injection Ha as <-. rewrite Hlen'. by apply Hv. }
  { by rewrite Hlen'. }
  exists out. split; [|split; [congruence|]].
  - destruct values as [v|].
    + assert (Hlen : length (h rewards) = length (h v))
        by (symmetry; by apply Hv).
      destruct (last (h v)) as [x|] eqn:Hx.
      2:{ apply last_None in Hx. rewrite Hx in Hlen. simpl in Hlen. lia. }
      destruct (Hst v x eq_refl Hx) as [y Hy].
      subst h'. rewrite (k_step_values _ _ _ _ _ x y) by done.
      by rewrite <- Hout.
    + rewrite k_step_no_values. by rewrite <- Hout.
  - intros t Ht. rewrite Hat by lia. rewrite Hlen', Hvals. reflexivity.
Qed.

Lemma k_step_value_exact h rewards values discount K' t :
  (1 <= length (h rewards))%nat ->
  (forall v, values = Some v -> length (h v) = length (h rewards)) ->
  stored_unchanged h rewards values ->
  k_step_value (overwrite h rewards values rewards) (h <$> values) discount K' t
  = spec_k_step (h rewards) (h <$> values) discount K' t.
Proof.
  intros HN Hv Hst.
  assert (Hv' : forall v, values = Some v ->
            length (h v) = length (h rewards) /\ h rewards <> []).
  { intros v Hvv. split; [by apply Hv|]. intros E. rewrite E in HN. simpl in HN. lia. }
  unfold k_step_value, spec_k_step. f_equal.
  - apply sum_range_ext. intros i _. f_equal. symmetry.
    by apply spec_reward_overwrite.
  - f_equal. unfold spec_bootstrap.
    destruct values as [v|]; [|reflexivity]. cbn [fmap option_fmap option_map].
    destruct (decide _) as [|Hge]; [reflexivity|].
    apply at0_ge. rewrite (Hv v eq_refl). lia.
Qed.




(** ** Repeated calls on the same arguments *)

Lemma overwrite_same rewards values g1 g2 :
  dtypes g1 = dtypes g2 -> same_store g1 g2 ->
  same_store (overwrite g1 rewards values) (overwrite g2 rewards values).
Proof.
  intros Hd H l. unfold overwrite. destruct values as [v|]; [|apply H].
  rewrite (H v), Hd. destruct (last (g2 v)); [|apply H].
  destruct (cast _ _ _); [|apply H].
  cbn. rewrite (H rewards). destruct (decide _); [reflexivity|apply H].
Qed.

Lemma overwrite_idem rewards values h :
  same_store (overwrite (overwrite h rewards values) rewards values)
             (overwrite h rewards values).
Proof.
  intros l. destruct values as [v|]; [|reflexivity].
  destruct (decide (l = rewards)) as [->|Hl]; [|by rewrite overwrite_other].
  destruct (last (h v)) as [x|] eqn:Hx.
  2:{ unfold overwrite. by rewrite !Hx. }
  destruct (cast (dtypes h v) (dtypes h rewards) x) as [y|e] eqn:Hy.
  2:{ by rewrite !(overwrite_raises h rewards v x e). }
  rewrite (overwrite_rewards (overwrite h rewards (Some v)) rewards v x y).
  - rewrite length_overwrite, (overwrite_rewards h rewards v x y) by done.
    apply list_insert_insert_eq.
  - by rewrite overwrite_values.
  - by rewrite dtypes_overwrite.
Qed.

Lemma settled_refl rewards values h : settled rewards values h h.
Proof. by repeat split. Qed.

Lemma settled_overwrite rewards values h g :
  settled rewards values h g ->
  settled rewards values h (overwrite g rewards values).
Proof.
  intros (Hd & Hv & Hr). repeat split.
  - by rewrite dtypes_overwrite.
  - intros v ->. rewrite overwrite_values. by apply Hv.
  - by rewrite (overwrite_idem rewards values g rewards).
Qed.

Lemma settled_length rewards values h g :
  settled rewards values h g -> length (g rewards) = length (h rewards).
Proof.
  intros (_ & _ & Hr).
  by rewrite <- (length_overwrite g rewards values), Hr, length_overwrite.
Qed.

Lemma settled_storable rewards values h g :
  settled rewards values h g ->
  storable h rewards values -> storable g rewards values.
Proof.
  intros (Hd & Hv & _) Hst v x Hvv Hx. rewrite Hd.
  apply (Hst v x Hvv). by rewrite <- (Hv v Hvv).
Qed.

Lemma settled_values rewards values h g :
  settled rewards values h g -> g <$> values = h <$> values.
Proof.
  intros (_ & Hv & _). destruct values as [v|]; [|reflexivity].
  cbn [fmap option_fmap option_map]. by rewrite (Hv v eq_refl).
Qed.

Lemma k_step_run_settled rewards values h g discount k :
  (1 <= length (h rewards))%nat ->
  (forall v, values = Some v -> length (h v) = length (h rewards)) ->
  storable h rewards values ->
  0 <= k <= Z.of_nat (length (h rewards)) ->
  settled rewards values h g ->
  exists out,
    get_k_step_returns rewards discount k values g
    = (overwrite g rewards values, Ok out)
    /\ returns_of rewards values h discount k out.
Proof.
  intros HN Hv Hst Hk Hsim.
  pose proof (settled_length _ _ _ _ Hsim) as Hlen.
  pose proof Hsim as (_ & Hgv & Hr).
  assert (Hres : resolve (length (g rewards)) k = k).
  { unfold resolve. destruct (Z.ltb_spec k 0); [lia|done]. }
  destruct (k_step_run g rewards values discount k) as (out & Hrun & Hlo & Hat).
  - lia.
  - intros v Hvv. rewrite (Hgv v Hvv), Hlen. by apply Hv.
  - by apply (settled_storable _ _ h).
  - rewrite Hres. lia.
  - exists out. split; [done|]. split; [congruence|].
    intros t Ht. rewrite Hat by lia.
    by rewrite Hres, Hr, (settled_values _ _ _ _ Hsim).
Qed.

Lemma mapM_M_cons {A B : Type} (f : A -> M B) x l (g : store) :
  mapM f (x :: l) g
  = match f x g with
    | (g', Ok y) =>
        match mapM f l g' with
        | (g'', Ok ys) => (g'', Ok (y :: ys))
        | (g'', Raise e) => (g'', Raise e)
        end
    | (g', Raise e) => (g', Raise e)
    end.
Proof.
  cbn [mapM]. unfold mbind at 1, M_bind at 1.
  destruct (f x g) as [g' [y|e]]; [|reflexivity].
  unfold mbind at 1, M_bind at 1.
  destruct (mapM f l g') as [g'' [ys|e]]; reflexivity.
Qed.

Lemma mapM_k_step rewards values h discount (ks : list Z) :
  (1 <= length (h rewards))%nat ->
  (forall v, values = Some v -> length (h v) = length (h rewards)) ->
  storable h rewards values ->
  Forall (fun k => 0 <= k <= Z.of_nat (length (h rewards))) ks ->
  forall g, settled rewards values h g ->
  exists g' outs,
    mapM (fun k => get_k_step_returns rewards discount k values) ks g
    = (g', Ok outs)
    /\ settled rewards values h g'
    /\ Forall2 (returns_of rewards values h discount) ks outs.
Proof.
  intros HN Hv Hst Hks. induction Hks as [|k ks Hk Hks IH]; intros g Hsim.
  - exists g, []. split; [reflexivity|]. split; [done|constructor].
  - destruct (k_step_run_settled rewards values h g discount k HN Hv Hst Hk Hsim)
      as (out & Hrun & Hout).
    destruct (IH _ (settled_overwrite _ _ _ _ Hsim)) as (g' & outs & Hm & Hs' & Hf).
    exists g', (out :: outs). split; [|split; [done|by constructor]].
    by rewrite mapM_M_cons, Hrun, Hm.
Qed.

(** ** The general path of [get_lambda_returns] *)

Lemma length_scale a c : length (scale a c) = length a.
Proof. apply length_fmap. Qed.

Lemma at0_scale a c t : (t < length a)%nat -> at0 (scale a c) t = (at0 a t * c)%Qc.
Proof.
  intros Ht. unfold at0 at 1, scale. rewrite list_lookup_fmap.
  by rewrite (at0_lookup a t).
Qed.

Lemma reduce1_horner c n (L : list array) :
  L <> [] -> Forall (fun s => length s = n) L ->
  exists out,
    reduce1 (fun x y => np_add (scale x c) y) L = Ok out
    /\ length out = n
    /\ forall t, (t < n)%nat ->
         at0 out t
         = fold_left (fun a y => (a * c + y)%Qc) ((fun s => at0 s t) <$> L) 0%Qc.
Proof.
  intros HL HF. destruct HF as [|o L Ho HF]; [done|].
  destruct (reduce_horner c n L o HF Ho) as (out & Hout & Hlen & Hat).
  exists out. repeat split; [done..|].
  intros t Ht. rewrite Hat by done. cbn [fmap list_fmap fold_left].
  f_equal. ring.
Qed.

Lemma returns_of_fmap rewards values h discount ks outs t :
  (t < length (h rewards))%nat ->
  Forall2 (returns_of rewards values h discount) ks outs ->
  (fun s => at0 s t) <$> outs
  = (fun k => k_step_value (overwrite h rewards values rewards) (h <$> values)
                discount (Z.to_nat k) t)
      <$> ks.
Proof.
  intros Ht HF. induction HF as [|k o ks outs [_ Hat] _ IH]; [reflexivity|].
  cbn [fmap list_fmap]. f_equal; [by apply Hat|apply IH].
Qed.

Lemma py_pow_nonneg x e : 0 <= e -> py_pow x e = Ok (x ^ Z.to_nat e)%Qc.
Proof. intros He. unfold py_pow. by destruct (Z.ltb_spec e 0); [lia|]. Qed.

Lemma lambda_run h rewards values discount lmda T :
  (1 <= length (h rewards))%nat ->
  (forall v, values = Some v -> length (h v) = length (h rewards)) ->
  storable h rewards values ->
  lmda <> 0%Qc -> lmda <> 1%Qc ->
  2 <= Z.min (resolve (length (h rewards)) T) (Z.of_nat (length (h rewards)) - 1) ->
  exists g out,
    get_lambda_returns rewards discount lmda values T h = (g, Ok out)
    /\ settled rewards values h g
    /\ length out = length (h rewards)
    /\ forall t, (t < length (h rewards))%nat ->
         at0 out t
         = (let T' := Z.to_nat (Z.min (resolve (length (h rewards)) T)
                                      (Z.of_nat (length (h rewards)) - 1)) in
            let R n := k_step_value (overwrite h rewards values rewards) (h <$> values) discount n t in
            (1 - lmda) * sum_range 1 (T' - 1) (fun n => lmda ^ (n - 1) * R n)
            + lmda ^ (T' - 1) * R T')%Qc.
Proof.
  intros HN Hv Hst H0 H1 HT. unfold get_lambda_returns.
  unfold mbind at 1, M_bind at 1, read at 1. cbn beta iota.
  rewrite !decide_False by done.
  unfold len. set (N := length (h rewards)) in *.
  change (if T <? 0 then Z.of_nat N - 1 else T) with (resolve N T).
  set (T' := Z.min (resolve N T) (Z.of_nat N - 1)) in *.
  set (m := Z.to_nat (T' - 1)).
  destruct (mapM_k_step rewards values h discount (range_down (T' - 1) 0) HN Hv Hst)
    with (g := h) as (g1 & outs & Hm & Hsim1 & HF); [|apply settled_refl|].
  { apply Forall_forall. intros k Hk%range_down_elem. fold N. lia. }
  destruct (reduce1_horner lmda N outs) as (pre & Hpre & Hlpre & Hatpre).
  { intros ->. apply Forall2_nil_inv_r in HF. unfold range_down in HF.
    apply fmap_nil_inv in HF.
    replace (Z.to_nat (T' - 1 - 0)) with (S (Z.to_nat (T' - 2))) in HF by lia.
    discriminate. }
  { clear -HF. induction HF as [|k o ks outs [Hl _] _ IH]; constructor; done. }
  destruct (k_step_run_settled rewards values h g1 discount T' HN Hv Hst)
    as (r & Hr & Hlr & Hatr); [fold N; lia|done|].
  fold N in Hlr, Hatr.
  unfold mbind at 1, M_bind at 1. rewrite Hm.
  unfold mbind at 1, M_bind at 1, lift at 1. rewrite Hpre.
  unfold mbind at 1, M_bind at 1. rewrite Hr.
  unfold mbind at 1, M_bind at 1, lift at 1. rewrite py_pow_nonneg by lia.
  unfold lift. rewrite np_add_scale by (rewrite length_scale; congruence).
  eexists _, _. split; [reflexivity|]. split; [by apply settled_overwrite|].
  split.
  { rewrite length_horner_step by (rewrite length_scale; congruence).
    by rewrite length_scale. }
  intros t Ht. cbv zeta.
  rewrite at0_horner_step by (rewrite length_scale; (congruence || lia)).
  rewrite at0_scale by lia. rewrite Hatr, Hatpre by done.
  rewrite (returns_of_fmap _ _ _ _ _ _ t Ht HF). unfold range_down.
  rewrite <- list_fmap_compose. replace (Z.to_nat (T' - 1 - 0)) with m by lia.
  rewrite (list_fmap_ext _
    (fun i => (fun j => k_step_value (overwrite h rewards values rewards) (h <$> values) discount (S j) t)
                (m - 1 - i)%nat)).
  2:{ intros i x [-> Hx]%lookup_seq. simpl. f_equal. lia. }
  pose proof (horner_sum lmda
    (fun j => k_step_value (overwrite h rewards values rewards) (h <$> values) discount (S j) t) m 0%Qc)
    as Hsum.
  cbv beta in Hsum. rewrite Hsum. clear Hsum.
  replace (Z.to_nat T' - 1)%nat with m by lia.
  assert (sum_range 1 m
            (fun n => lmda ^ (n - 1)
                      * k_step_value (overwrite h rewards values rewards) (h <$> values) discount n t)%Qc
          = sum_range 0 m
              (fun i => lmda ^ i
                        * k_step_value (overwrite h rewards values rewards) (h <$> values) discount (S i) t)%Qc)
    as ->.
  { rewrite sum_range_shift. apply sum_range_ext. intros n _.
    by replace (S n - 1)%nat with n by lia. }
  fold m. ring.
Qed.

(** C2, amended.  For rewards of length [N >= 2], values absent or of length
    [N] whose last entry can be written into the rewards array,
    [0 < lmda < 1] and a truncation horizon whose clamped value
    [T' = min(T, N-1)] (a negative [T] standing for [N-1]) is at least 2,
    [get_lambda_returns] returns an array of length [N] whose entry [t] is
    [(1-lmda) * sum_{n=1}^{T'-1} lmda^(n-1) * R_t(n) + lmda^(T'-1) * R_t(T')],
    where [R(n)] is the array [get_k_step_returns] returns for horizon [n] on
    the same inputs. *)
Theorem lambda_returns_formula h rewards values discount lmda T :
  (2 <= length (h rewards))%nat ->
  (forall v, values = Some v -> length (h v) = length (h rewards)) ->
  storable h rewards values ->
  (0 < lmda)%Qc -> (lmda < 1)%Qc ->
  2 <= Z.min (resolve (length (h rewards)) T) (Z.of_nat (length (h rewards)) - 1) ->
  exists out,
    (get_lambda_returns rewards discount lmda values T h).2 = Ok out
    /\ length out = length (h rewards)
    /\ (forall n : nat,
          1 <= Z.of_nat n
            <= Z.min (resolve (length (h rewards)) T)
                     (Z.of_nat (length (h rewards)) - 1) ->
          (get_k_step_returns rewards discount (Z.of_nat n) values h).2
          = Ok (k_step_output rewards discount values h n))
    /\ forall t, (t < length (h rewards))%nat ->
         out !! t
         = Some (spec_lambda (k_step_output rewards discount values h) lmda
                   (Z.to_nat (Z.min (resolve (length (h rewards)) T)
                                    (Z.of_nat (length (h rewards)) - 1))) t).
Proof.
  intros HN Hv Hst Hpos Hlt1 HT.
  assert (H0 : lmda <> 0%Qc) by (intros ->; by apply (Qclt_not_eq 0 0)).
  assert (H1 : lmda <> 1%Qc) by (intros ->; by apply (Qclt_not_eq 1 1)).
  destruct (lambda_run h rewards values discount lmda T) as (g & out & Hrun & _ & Hlen & Hat);
    [lia|done..|].
  set (T' := Z.min _ _) in *.
  assert (HR : forall n : nat, 1 <= Z.of_nat n <= T' ->
            (get_k_step_returns rewards discount (Z.of_nat n) values h).2
            = Ok (k_step_output rewards discount values h n)
            /\ forall t, (t < length (h rewards))%nat ->
                 at0 (k_step_output rewards discount values h n) t
                 = k_step_value (overwrite h rewards values rewards)
                     (h <$> values) discount n t).
  { intros n Hn.
    destruct (k_step_run_settled rewards values h h discount (Z.of_nat n))
      as (o & Ho & _ & Hato); [lia|done|done|lia|apply settled_refl|].
    unfold k_step_output. rewrite Ho. split; [reflexivity|].
    intros t Ht. rewrite Hato by done. by rewrite Nat2Z.id. }
  exists out. rewrite Hrun. split; [reflexivity|]. split; [done|].
  split; [intros n Hn; by apply HR|].
  intros t Ht. rewrite at0_lookup by lia. rewrite Hat by done. cbv zeta.
  unfold spec_lambda. f_equal. f_equal; [f_equal|f_equal].
  - apply sum_range_ext. intros n Hn. f_equal. symmetry. apply HR; lia.
  - symmetry. apply HR; lia.
Qed.

(** The sample call
    [get_lambda_returns(rw, 0.8, 0.6, values=vals, truncate_steps=3)]. *)
Lemma lambda_returns_formula_witness :
  exists out,
    (get_lambda_returns 0%nat (qc 4 5) (qc 3 5) (Some 1%nat) 3 sample_store).2
    = Ok out
    /\ length out = 5%nat
    /\ (forall n : nat, 1 <= Z.of_nat n <= 3 ->
          (get_k_step_returns 0%nat (qc 4 5) (Z.of_nat n) (Some 1%nat)
             sample_store).2
          = Ok (k_step_output 0%nat (qc 4 5) (Some 1%nat) sample_store n))
    /\ forall t, (t < 5)%nat ->
         out !! t
         = Some (spec_lambda (k_step_output 0%nat (qc 4 5) (Some 1%nat) sample_store)
                   (qc 3 5) 3 t).
Proof.
  apply (lambda_returns_formula sample_store 0%nat (Some 1%nat) (qc 4 5) (qc 3 5) 3).
  - vm_compute. lia.
  - intros v [= <-]. reflexivity.
  - intros v x [= <-] _. by exists x.
  - reflexivity.
  - reflexivity.
  - vm_compute. discriminate.
Defined.

(** C2 as stated fails when the last value does not fit an integer rewards
    array: with rewards [1, 2, 3] of integer type, values [1, 1, 1e30],
    discount 0.8, [lmda = 0.6] and the default horizon ([T' = 2]), the first
    call of [get_k_step_returns] raises [OverflowError] at the overwrite. *)
Lemma lambda_returns_overflow :
  let h := typed_store Int64 Float64 [qc 1 1; qc 2 1; qc 3 1]
             [qc 1 1; qc 1 1; qc (10 ^ 30) 1] in
  ~ exists out,
      (get_lambda_returns 0%nat (qc 4 5) (qc 3 5) (Some 1%nat) (-1) h).2 = Ok out.
Proof.
  intros h [out Hout]. vm_compute in Hout. discriminate Hout.
Qed.


(** ** The three paths of [get_lambda_returns] *)

Lemma lambda_paths rewards discount lmda values T h :
  get_lambda_returns rewards discount lmda values T h
  = if decide (lmda = 0%Qc) then get_k_step_returns rewards discount 1 values h
    else if decide (lmda = 1%Qc) then
      get_k_step_returns rewards discount (resolve (length (h rewards)) T) values h
    else
      lambda_general rewards discount lmda values
        (Z.min (resolve (length (h rewards)) T)
               (Z.of_nat (length (h rewards)) - 1)) h.
Proof.
  unfold get_lambda_returns.
  unfold mbind at 1, M_bind at 1, read at 1. cbn beta iota.
  destruct (decide (lmda = 0%Qc)); [reflexivity|].
  destruct (decide (lmda = 1%Qc)); reflexivity.
Qed.

(** ** Failures *)

Lemma range_down_nil start stop : start <= stop -> range_down start stop = [].
Proof.
  intros H. unfold range_down. by replace (Z.to_nat (start - stop)) with 0%nat by lia.
Qed.

Lemma range_down_cons start stop :
  stop < start -> range_down start stop = start :: range_down (start - 1) stop.
Proof.
  intros H. unfold range_down.
  replace (Z.to_nat (start - stop)) with (S (Z.to_nat (start - 1 - stop))) by lia.
  cbn [seq fmap list_fmap]. f_equal; [lia|].
  rewrite <- fmap_S_seq, <- list_fmap_compose.
  apply list_fmap_ext. intros i x _. simpl. lia.
Qed.

(** With no horizon between 1 and [T' - 1] the list handed to [reduce] is
    empty, and [reduce] without an initial value raises. *)
Lemma lambda_empty_family h rewards values discount lmda T :
  lmda <> 0%Qc -> lmda <> 1%Qc ->
  Z.min (resolve (length (h rewards)) T) (Z.of_nat (length (h rewards)) - 1) <= 1 ->
  get_lambda_returns rewards discount lmda values T h = (h, Raise TypeError).
Proof.
  intros H0 H1 HT. rewrite lambda_paths, !decide_False by done.
  unfold lambda_general. by rewrite range_down_nil by lia.
Qed.

Lemma np_add_mismatch (x y : array) :
  length x <> length y -> (2 <= length x)%nat -> (2 <= length y)%nat ->
  np_add x y = Raise ValueError.
Proof.
  intros Hne Hx Hy. unfold np_add. rewrite decide_False by done.
  destruct x as [|a [|a' x]]; simpl in Hx; try lia.
  destruct y as [|b [|b' y]]; simpl in Hy; try lia. reflexivity.
Qed.

(** C3.  The claim is that neither function ever fails on rewards and values
    of one length [N >= 1].  The code fails on such inputs: a horizon
    [K = 3] on two rewards with values raises [ValueError] in
    [get_k_step_returns], and [get_lambda_returns] on a single reward with
    [lmda = 1/2] and the default horizon raises [TypeError]. *)
Theorem returns_fail_on_aligned_inputs :
  (get_k_step_returns 0%nat (qc 4 5) 3 (Some 1%nat)
     (store_of [qc 1 1; qc 2 1] [qc 3 1; qc 4 1])).2 = Raise ValueError
  /\ (get_lambda_returns 0%nat (qc 4 5) (qc 1 2) (Some 1%nat) (-1)
        (store_of [qc 1 1] [qc 1 1])).2 = Raise TypeError.
Proof. split; vm_compute; reflexivity. Qed.

(** C4.  The claim is that with [0 < lmda < 1] and a clamped horizon
    [T' = min(T, N-1) = 1] the call returns the one-step returns.  The code
    raises [TypeError] on every such input, and leaves the store as it
    was. *)
Theorem lambda_horizon_one_raises h rewards values discount lmda T :
  (1 <= length (h rewards))%nat ->
  (forall v, values = Some v -> length (h v) = length (h rewards)) ->
  (0 < lmda)%Qc -> (lmda < 1)%Qc ->
  Z.min (resolve (length (h rewards)) T) (Z.of_nat (length (h rewards)) - 1) = 1 ->
  get_lambda_returns rewards discount lmda values T h = (h, Raise TypeError).
Proof.
  intros _ _ Hpos Hlt1 HT. apply lambda_empty_family; [| |lia].
  - intros ->. by apply (Qclt_not_eq 0 0).
  - intros ->. by apply (Qclt_not_eq 1 1).
Qed.

(** The sample arrays with [truncate_steps = 1]. *)
Lemma lambda_horizon_one_raises_witness :
  get_lambda_returns 0%nat (qc 4 5) (qc 3 5) (Some 1%nat) 1 sample_store
  = (sample_store, Raise TypeError).
Proof.
  apply (lambda_horizon_one_raises sample_store 0%nat (Some 1%nat)
           (qc 4 5) (qc 3 5) 1).
  - vm_compute. lia.
  - intros v [= <-]. reflexivity.
  - reflexivity.
  - reflexivity.
  - reflexivity.
Defined.

(** C5 as stated fails on the [lmda = 1] path: two rewards [1, 1], no
    values, discount 1.  With [T = 2] the first return is 2, with
    [T = N - 1 = 1] it is 1. *)
Lemma lambda_one_not_clamped :
  (get_lambda_returns 0%nat 1%Qc 1%Qc None 2 (store_of [1%Qc; 1%Qc] [])).2
  <> (get_lambda_returns 0%nat 1%Qc 1%Qc None 1 (store_of [1%Qc; 1%Qc] [])).2.
Proof.
  intros E. apply (f_equal show) in E. vm_compute in E. discriminate.
Qed.

(** C5, amended.  For every [lmda] other than 1 the horizon is clamped (or,
    for [lmda = 0], not used): a truncation horizon [T > N - 1] gives the
    same outcome, store and result, as [T = N - 1]. *)
Theorem lambda_horizon_clamped h rewards values discount lmda T :
  lmda <> 1%Qc ->
  Z.of_nat (length (h rewards)) - 1 < T ->
  get_lambda_returns rewards discount lmda values T h
  = get_lambda_returns rewards discount lmda values
      (Z.of_nat (length (h rewards)) - 1) h.
Proof.
  intros H1 HT. rewrite !lambda_paths.
  destruct (decide (lmda = 0%Qc)); [reflexivity|].
  rewrite !decide_False by done. f_equal. unfold resolve.
  destruct (Z.ltb_spec T 0), (Z.ltb_spec (Z.of_nat (length (h rewards)) - 1) 0);
    lia.
Qed.

Lemma lambda_horizon_clamped_witness :
  get_lambda_returns 0%nat (qc 4 5) (qc 3 5) (Some 1%nat) 9 sample_store
  = get_lambda_returns 0%nat (qc 4 5) (qc 3 5) (Some 1%nat) 4 sample_store.
Proof.
  apply (lambda_horizon_clamped sample_store 0%nat (Some 1%nat) (qc 4 5) (qc 3 5) 9).
  - intros E. apply (f_equal (fun x : Qc => Qnum x)) in E. discriminate.
  - vm_compute. reflexivity.
Defined.

(** C6.  The claim is that a returned array always has length [N].  On one
    reward with one value and [K = 2] the code returns two entries. *)
Theorem k_step_length_overrun :
  exists out,
    (get_k_step_returns 0%nat (qc 4 5) 2 (Some 1%nat)
       (store_of [qc 5 1] [qc 6 1])).2 = Ok out
    /\ length out = 2%nat
    /\ length (store_of [qc 5 1] [qc 6 1] 0%nat) = 1%nat.
Proof. eexists. split; [vm_compute; reflexivity|]. split; reflexivity. Qed.

(** ** Effects on the store *)




(** C8.  With [lmda = 0], [get_lambda_returns] is [get_k_step_returns] with
    [k = 1] on the same arguments, for every truncation horizon: the same
    result and the same store. *)
Theorem lambda_zero_is_one_step h rewards values discount T :
  get_lambda_returns rewards discount 0%Qc values T h
  = get_k_step_returns rewards discount 1 values h.
Proof. rewrite lambda_paths. by rewrite decide_True. Qed.

(** What both functions do on a length mismatch: [get_k_step_returns] raises
    the assertion; [get_lambda_returns] raises it too when it calls
    [get_k_step_returns], and otherwise raises the [TypeError] of the empty
    [reduce]. *)
Lemma mismatched_lengths_outcome h rewards v discount lmda K T :
  (1 <= length (h rewards))%nat ->
  length (h v) <> length (h rewards) ->
  get_k_step_returns rewards discount K (Some v) h = (h, Raise AssertionError)
  /\ exists e,
       get_lambda_returns rewards discount lmda (Some v) T h = (h, Raise e)
       /\ (e = AssertionError
           \/ e = TypeError /\ lmda <> 0%Qc /\ lmda <> 1%Qc
              /\ Z.min (resolve (length (h rewards)) T)
                       (Z.of_nat (length (h rewards)) - 1) <= 1).
Proof.
  intros _ Hne.
  assert (Hk : forall k, get_k_step_returns rewards discount k (Some v) h
                         = (h, Raise AssertionError))
    by (intros k; apply k_step_mismatch; congruence).
  split; [apply Hk|]. rewrite lambda_paths.
  destruct (decide (lmda = 0%Qc)) as [|H0]; [exists AssertionError; auto|].
  destruct (decide (lmda = 1%Qc)) as [|H1]; [exists AssertionError; auto|].
  set (T' := Z.min _ _).
  destruct (Z.le_gt_cases T' 1) as [Hle|Hgt].
  - exists TypeError. split; [|by auto].
    unfold lambda_general. by rewrite range_down_nil by lia.
  - exists AssertionError. split; [|by auto].
    unfold lambda_general. rewrite range_down_cons by lia.
    unfold mbind at 1, M_bind at 1. by rewrite mapM_M_cons, Hk.
Qed.


(** C9.  The claim is that a length mismatch makes both functions fail with
    the assertion, for every choice of the scalar parameters.  With [lmda]
    other than 0 and 1 and a clamped horizon of at most 1,
    [get_lambda_returns] never compares the lengths: it raises the
    [TypeError] of the empty [reduce], as it does on arrays of one length. *)
Theorem lambda_mismatch_not_compared h rewards v discount lmda T :
  (1 <= length (h rewards))%nat ->
  length (h v) <> length (h rewards) ->
  lmda <> 0%Qc -> lmda <> 1%Qc ->
  Z.min (resolve (length (h rewards)) T) (Z.of_nat (length (h rewards)) - 1) <= 1 ->
  get_lambda_returns rewards discount lmda (Some v) T h = (h, Raise TypeError).
Proof. intros _ _ H0 H1 HT. by apply lambda_empty_family. Qed.

(** Five rewards against two values, [lmda = 0.6], [truncate_steps = 1]. *)
Lemma lambda_mismatch_not_compared_witness :
  get_lambda_returns 0%nat (qc 4 5) (qc 3 5) (Some 1%nat) 1
    (store_of rw [qc 1 1; qc 2 1])
  = (store_of rw [qc 1 1; qc 2 1], Raise TypeError).
Proof.
  apply (lambda_mismatch_not_compared (store_of rw [qc 1 1; qc 2 1]) 0%nat 1%nat
           (qc 4 5) (qc 3 5) 1).
  - vm_compute. lia.
  - vm_compute. discriminate.
  - intros E. apply (f_equal (fun x : Qc => Qnum x)) in E. discriminate.
  - intros E. apply (f_equal (fun x : Qc => Qnum x)) in E. discriminate.
  - vm_compute. discriminate.
Defined.

(** C10.  When [get_k_step_returns] is given nonempty rewards and values of
    another length, it raises the assertion and the store it leaves is the
    store it was given: the length check comes before the overwrite. *)
Theorem k_step_mismatch_keeps_store h rewards v discount K :
  (1 <= length (h rewards))%nat ->
  length (h v) <> length (h rewards) ->
  (get_k_step_returns rewards discount K (Some v) h).2 = Raise AssertionError
  /\ (get_k_step_returns rewards discount K (Some v) h).1 = h.
Proof.
  intros _ Hne. rewrite k_step_mismatch by congruence. by split.
Qed.

Lemma k_step_mismatch_keeps_store_witness :
  let h := store_of rw [qc 1 1; qc 2 1] in
  (get_k_step_returns 0%nat (qc 4 5) 4 (Some 1%nat) h).2 = Raise AssertionError
  /\ (get_k_step_returns 0%nat (qc 4 5) 4 (Some 1%nat) h).1 = h.
Proof.
  apply (k_step_mismatch_keeps_store (store_of rw [qc 1 1; qc 2 1]) 0%nat 1%nat
           (qc 4 5) 4).
  - vm_compute. lia.
  - vm_compute. discriminate.
Defined.

(** * Further properties of the two functions *)

(** ** [get_k_step_returns] without values *)

Lemma sum_range_zero lo cnt f :
  (forall n, (lo <= n < lo + cnt)%nat -> f n = 0%Qc) -> sum_range lo cnt f = 0%Qc.
Proof.
  revert lo. induction cnt as [|cnt IH]; intros lo Hf; [reflexivity|].
  rewrite sum_range_S_l, Hf, IH by (intros; try apply Hf; lia). ring.
Qed.

Lemma array_eq_at0 (a b : array) :
  length a = length b ->
  (forall t, (t < length a)%nat -> at0 a t = at0 b t) -> a = b.
Proof.
  intros Hlen Hat. apply list_eq. intros t.
  destruct (decide (t < length a)%nat) as [Ht|Ht].
  - rewrite (at0_lookup a t), (at0_lookup b t) by lia. f_equal. by apply Hat.
  - by rewrite !lookup_ge_None_2 by lia.
Qed.

Lemma k_step_core_None_clamp (rs : array) discount K :
  Z.of_nat (length rs) <= K ->
  k_step_core rs discount K None
  = k_step_core rs discount (Z.of_nat (length rs)) None.
Proof.
  intros HK. unfold k_step_core, len.
  destruct (Z.ltb_spec K 0), (Z.ltb_spec (Z.of_nat (length rs)) 0); try lia.
  by rewrite Z.min_r, Z.min_id by lia.
Qed.

Lemma k_step_core_None_run (rs : array) discount K :
  exists out,
    k_step_core rs discount K None = Ok out
    /\ length out = length rs
    /\ forall t, (t < length rs)%nat ->
         at0 out t
         = sum_range 0 (Z.to_nat (Z.min (resolve (length rs) K)
                                        (Z.of_nat (length rs))))
             (fun i => discount ^ i * at0 rs (t + i))%Qc.
Proof.
  destruct (Z.le_gt_cases (resolve (length rs) K) (Z.of_nat (length rs)))
    as [Hle|Hgt].
  - destruct (decide (0 <= resolve (length rs) K)) as [H0|Hneg].
    + destruct (k_step_core_formula rs None discount K) as (out & Ho & Hl & Hat);
        [done|lia|].
      exists out. repeat split; [done..|]. intros t Ht.
      rewrite Hat by done. cbv zeta. rewrite Z.min_l by lia. ring.
    + (* only the sentinel on an empty array resolves below zero *)
      unfold resolve in Hneg. destruct (Z.ltb_spec K 0) as [HK|HK]; [|lia].
      destruct rs as [|r rs]; [|simpl in Hneg; lia].
      exists []. unfold k_step_core, len. simpl.
      destruct (Z.ltb_spec K 0); [|lia]. repeat split. intros t Ht. simpl in Ht. lia.
  - assert (HK : Z.of_nat (length rs) < K).
    { unfold resolve in Hgt. destruct (Z.ltb_spec K 0); lia. }
    rewrite k_step_core_None_clamp by lia.
    destruct (k_step_core_formula rs None discount (Z.of_nat (length rs)))
      as (out & Ho & Hl & Hat); [done|unfold resolve;
        destruct (Z.ltb_spec (Z.of_nat (length rs)) 0); lia|].
    exists out. repeat split; [done..|]. intros t Ht.
    rewrite Hat by done. cbv zeta. rewrite Z.min_r by lia.
    replace (resolve (length rs) (Z.of_nat (length rs))) with (Z.of_nat (length rs)).
    2:{ unfold resolve. destruct (Z.ltb_spec (Z.of_nat (length rs)) 0); lia. }
    ring.
Qed.

(** X1.  Without values [get_k_step_returns] never raises and never writes:
    for every rewards array, empty or not, and every integer horizon, it
    returns an array as long as the rewards whose entry [t] is
    [sum_{i<K'} discount^i * rewards[t+i]] (zero past the end), where [K'] is
    the horizon clamped to [N], a negative horizon standing for [N - 1]. *)
Theorem k_step_without_values h rewards discount K :
  exists out,
    get_k_step_returns rewards discount K None h = (h, Ok out)
    /\ length out = length (h rewards)
    /\ forall t, (t < length (h rewards))%nat ->
         out !! t
         = Some (sum_range 0
                   (Z.to_nat (Z.min (resolve (length (h rewards)) K)
                                    (Z.of_nat (length (h rewards)))))
                   (fun i => discount ^ i * at0 (h rewards) (t + i))%Qc).
Proof.
  destruct (k_step_core_None_run (h rewards) discount K) as (out & Ho & Hl & Hat).
  exists out. rewrite k_step_no_values, Ho. repeat split; [done|].
  intros t Ht. rewrite at0_lookup by lia. by rewrite Hat.
Qed.

(** X2.  Without values and with a horizon [K >= 1], the return of the last
    time step is the last reward itself. *)
Theorem k_step_terminal_zero h rewards discount K :
  (1 <= length (h rewards))%nat -> 1 <= K ->
  exists out,
    (get_k_step_returns rewards discount K None h).2 = Ok out
    /\ last out = last (h rewards).
Proof.
  intros HN HK.
  destruct (k_step_core_None_run (h rewards) discount K) as (out & Ho & Hl & Hat).
  exists out. rewrite k_step_no_values, Ho. split; [reflexivity|].
  rewrite !last_lookup, Hl.
  rewrite (at0_lookup out), (at0_lookup (h rewards)) by lia. f_equal.
  rewrite Hat by lia.
  assert (resolve (length (h rewards)) K = K) as ->.
  { unfold resolve. destruct (Z.ltb_spec K 0); [lia|done]. }
  destruct (Z.to_nat (Z.min K (Z.of_nat (length (h rewards))))) as [|m] eqn:Hm;
    [lia|].
  rewrite sum_range_S_l, sum_range_zero.
  - rewrite Nat.add_0_r. simpl. ring.
  - intros n Hn. rewrite at0_ge by lia. ring.
Qed.

Lemma k_step_terminal_zero_witness :
  exists out,
    (get_k_step_returns 0%nat (qc 4 5) 2 None sample_store).2 = Ok out
    /\ last out = last (sample_store 0%nat).
Proof.
  apply (k_step_terminal_zero sample_store 0%nat (qc 4 5) 2).
  - vm_compute. lia.
  - lia.
Defined.

(** X3.  Without values, the default horizon ([k < 0], that is [N - 1])
    leaves the last reward out of the first return: a horizon [K >= N] gives
    the full discounted sums, and the default gives the same array except
    that entry 0 lacks [discount^(N-1) * rewards[N-1]]. *)
Theorem k_step_default_horizon_short h rewards discount k K :
  (1 <= length (h rewards))%nat -> k < 0 -> Z.of_nat (length (h rewards)) <= K ->
  exists short full,
    (get_k_step_returns rewards discount k None h).2 = Ok short
    /\ (get_k_step_returns rewards discount K None h).2 = Ok full
    /\ length short = length (h rewards)
    /\ length full = length (h rewards)
    /\ forall t, (t < length (h rewards))%nat ->
         at0 full t
         = (at0 short t
            + if decide (t = 0)%nat
              then discount ^ (length (h rewards) - 1)
                   * at0 (h rewards) (length (h rewards) - 1)
              else 0)%Qc.
Proof.
  intros HN Hk HK. set (N := length (h rewards)) in *.
  destruct (k_step_core_None_run (h rewards) discount k) as (short & Hs & Hls & Hats).
  destruct (k_step_core_None_run (h rewards) discount K) as (full & Hf & Hlf & Hatf).
  fold N in Hls, Hlf, Hats, Hatf.
  exists short, full. rewrite !k_step_no_values, Hs, Hf.
  repeat split; [done..|]. intros t Ht. rewrite Hats, Hatf by done.
  assert (Z.to_nat (Z.min (resolve N K) (Z.of_nat N)) = S (N - 1)) as ->.
  { unfold resolve. destruct (Z.ltb_spec K 0); lia. }
  assert (Z.to_nat (Z.min (resolve N k) (Z.of_nat N)) = (N - 1)%nat) as ->.
  { unfold resolve. destruct (Z.ltb_spec k 0); lia. }
  rewrite sum_range_S_r. f_equal. simpl.
  destruct (decide (t = 0)%nat) as [->|Hne]; [reflexivity|].
  rewrite at0_ge by (fold N; lia). ring.
Qed.

Lemma k_step_default_horizon_short_witness :
  exists short full,
    (get_k_step_returns 0%nat (qc 4 5) (-1) None sample_store).2 = Ok short
    /\ (get_k_step_returns 0%nat (qc 4 5) 5 None sample_store).2 = Ok full
    /\ length short = 5%nat
    /\ length full = 5%nat
    /\ forall t, (t < 5)%nat ->
         at0 full t
         = (at0 short t
            + if decide (t = 0)%nat then qc 4 5 ^ 4 * at0 rw 4 else 0)%Qc.
Proof.
  apply (k_step_default_horizon_short sample_store 0%nat (qc 4 5) (-1) 5).
  - vm_compute. lia.
  - lia.
  - vm_compute. discriminate.
Defined.

(** ** Horizons *)

Lemma k_step_core_resolve (rs : array) discount k vs :
  k_step_core rs discount (resolve (length rs) k) vs = k_step_core rs discount k vs.
Proof.
  unfold k_step_core, resolve, len. cbv zeta.
  set (r := if k <? 0 then Z.of_nat (length rs) - 1 else k).
  assert ((if r <? 0 then Z.of_nat (length rs) - 1 else r) = r) as ->;
    [|reflexivity].
  subst r. destruct (Z.ltb_spec k 0) as [Hk|Hk].
  - by destruct (Z.ltb_spec (Z.of_nat (length rs) - 1) 0).
  - by destruct (Z.ltb_spec k 0); [lia|].
Qed.

Lemma k_step_resolve h rewards discount k values :
  get_k_step_returns rewards discount (resolve (length (h rewards)) k) values h
  = get_k_step_returns rewards discount k values h.
Proof.
  destruct values as [v|].
  - destruct (decide (length (h rewards) = length (h v))) as [Hlen|Hne].
    2:{ by rewrite !k_step_mismatch. }
    destruct (last (h v)) as [x|] eqn:Hx.
    2:{ apply last_None in Hx. by rewrite !k_step_empty_values. }
    destruct (cast (dtypes h v) (dtypes h rewards) x) as [y|e] eqn:Hy.
    + rewrite !(k_step_values _ _ _ _ _ x y) by done. cbv zeta. f_equal.
      rewrite <- (length_overwrite h rewards (Some v)).
      apply k_step_core_resolve.
    + by rewrite !(k_step_cast_raises _ _ _ _ _ x e).
  - rewrite !k_step_no_values. f_equal. apply k_step_core_resolve.
Qed.

(** X4.  With [lmda = 1], [get_lambda_returns] is [get_k_step_returns] with
    the truncation horizon as its [k], for every horizon, negative ones
    included, and every store: the same result and the same store. *)
Theorem lambda_one_is_k_step h rewards values discount T :
  get_lambda_returns rewards discount 1%Qc values T h
  = get_k_step_returns rewards discount T values h.
Proof.
  rewrite lambda_paths. rewrite decide_False by done. rewrite decide_True by done.
  apply k_step_resolve.
Qed.

Lemma spec_reward_bootstrap_tail (rs vs : array) j :
  length vs = length rs -> (length rs - 1 <= j)%nat ->
  spec_reward rs (Some vs) j = spec_bootstrap rs (Some vs) j.
Proof.
  intros Hlen Hj. unfold spec_reward, spec_bootstrap.
  destruct (decide (j < length rs)%nat) as [Hlt|]; [|reflexivity].
  rewrite decide_True by lia. f_equal. lia.
Qed.

(** X5.  With values supplied whose last entry the rewards array stores
    unchanged, the horizon [K = N] and the default horizon give the same
    outcome: the overwritten last reward stands in for the bootstrap value
    that the default horizon reads at the last index. *)
Theorem k_step_full_horizon_is_default h rewards v discount k :
  (1 <= length (h rewards))%nat ->
  length (h v) = length (h rewards) ->
  stored_unchanged h rewards (Some v) ->
  k < 0 ->
  get_k_step_returns rewards discount (Z.of_nat (length (h rewards))) (Some v) h
  = get_k_step_returns rewards discount k (Some v) h.
Proof.
  intros HN Hv Hst Hk. set (N := length (h rewards)) in *.
  assert (Hvs : forall v', Some v = Some v' -> length (h v') = N)
    by (by intros v' [= <-]).
  pose proof (stored_unchanged_storable _ _ _ Hst) as Hst'.
  destruct (k_step_run h rewards (Some v) discount (Z.of_nat N) HN Hvs Hst')
    as (o1 & -> & Hl1 & Hat1).
  { unfold resolve. fold N. destruct (Z.ltb_spec (Z.of_nat N) 0); lia. }
  destruct (k_step_run h rewards (Some v) discount k HN Hvs Hst')
    as (o2 & -> & Hl2 & Hat2).
  { unfold resolve. fold N. destruct (Z.ltb_spec k 0); lia. }
  fold N in Hl1, Hl2, Hat1, Hat2. do 2 f_equal.
  apply array_eq_at0; [congruence|]. intros t Ht.
  rewrite Hat1, Hat2 by lia. rewrite !k_step_value_exact by done.
  assert (Z.to_nat (resolve N (Z.of_nat N)) = S (N - 1)) as ->.
  { unfold resolve. destruct (Z.ltb_spec (Z.of_nat N) 0); lia. }
  assert (Z.to_nat (resolve N k) = (N - 1)%nat) as ->.
  { unfold resolve. destruct (Z.ltb_spec k 0); lia. }
  unfold spec_k_step. rewrite sum_range_S_r.
  cbn [fmap option_fmap option_map]. simpl (0 + _)%nat.
  rewrite (spec_reward_bootstrap_tail (h rewards) (h v)) by (fold N; lia).
  assert (spec_bootstrap (h rewards) (Some (h v)) (t + S (N - 1)) = 0%Qc) as ->.
  { unfold spec_bootstrap. fold N. by rewrite decide_False by lia. }
  ring.
Qed.

Lemma k_step_full_horizon_is_default_witness :
  get_k_step_returns 0%nat (qc 4 5) 5 (Some 1%nat) sample_store
  = get_k_step_returns 0%nat (qc 4 5) (-1) (Some 1%nat) sample_store.
Proof.
  apply (k_step_full_horizon_is_default sample_store 0%nat 1%nat (qc 4 5) (-1)).
  - vm_compute. lia.
  - reflexivity.
  - intros v x [= <-] _. reflexivity.
  - lia.
Defined.

(** X6.  With horizon [K = 0] and values whose last entry can be written into
    the rewards array, no reward is added: the call returns the values array
    as it is. *)
Theorem k_step_zero_horizon_returns_values h rewards v discount :
  (1 <= length (h rewards))%nat ->
  length (h v) = length (h rewards) ->
  storable h rewards (Some v) ->
  (get_k_step_returns rewards discount 0 (Some v) h).2 = Ok (h v).
Proof.
  intros HN Hv Hst.
  destruct (last (h v)) as [x|] eqn:Hx.
  2:{ apply last_None in Hx. rewrite Hx in Hv. simpl in Hv. lia. }
  destruct (Hst v x eq_refl Hx) as [y Hy].
  rewrite (k_step_values _ _ _ _ _ x y) by done.
  cbv zeta. cbn [snd]. rewrite overwrite_values.
  unfold k_step_core, len. rewrite length_overwrite.
  destruct (Z.ltb_spec 0 0); [lia|].
  rewrite Z.min_l by lia. rewrite range_down_nil by lia.
  rewrite np_pad_slice by lia. cbn [mapM mbind mret result_bind result_ret reduce].
  unfold shifted. simpl. by rewrite app_nil_r.
Qed.

Lemma k_step_zero_horizon_returns_values_witness :
  (get_k_step_returns 0%nat (qc 4 5) 0 (Some 1%nat) sample_store).2
  = Ok (sample_store 1%nat).
Proof.
  apply (k_step_zero_horizon_returns_values sample_store 0%nat 1%nat (qc 4 5)).
  - vm_compute. lia.
  - reflexivity.
  - intros v x [= <-] _. by exists x.
Defined.

(** ** Inputs on which the functions raise *)

(** X7.  With values supplied whose last entry can be written into the
    rewards array, at least two rewards and a horizon beyond the end
    ([K > N]), [get_k_step_returns] raises [ValueError]: the bootstrap array
    has [K] entries and the shifted rewards have [N]. *)
Theorem k_step_horizon_beyond_end_raises h rewards v discount K :
  (2 <= length (h rewards))%nat ->
  length (h v) = length (h rewards) ->
  storable h rewards (Some v) ->
  Z.of_nat (length (h rewards)) < K ->
  (get_k_step_returns rewards discount K (Some v) h).2 = Raise ValueError.
Proof.
  intros HN Hv Hst HK.
  destruct (last (h v)) as [x|] eqn:Hx.
  2:{ apply last_None in Hx. rewrite Hx in Hv. simpl in Hv. lia. }
  destruct (Hst v x eq_refl Hx) as [y Hy].
  rewrite (k_step_values _ _ _ _ _ x y) by done.
  cbn [snd]. rewrite overwrite_values. unfold k_step_core, len.
  rewrite length_overwrite. set (rs' := overwrite _ _ _ _).
  assert (Hrs' : length rs' = length (h rewards)) by apply length_overwrite.
  destruct (Z.ltb_spec K 0) as [?|_]; [lia|].
  rewrite Z.min_r by lia. rewrite range_down_cons by lia.
  rewrite (mapM_result_Ok _ (fun i => shifted rs' (Z.to_nat i))).
  2:{ intros i Hi. apply np_pad_slice.
      apply elem_of_cons in Hi as [->|Hi%range_down_elem]; lia. }
  rewrite np_pad_slice by lia. cbn [mbind result_bind fmap list_fmap reduce].
  rewrite np_add_mismatch; [reflexivity|..].
  - rewrite length_scale. unfold shifted.
    rewrite !length_app, !length_drop, !length_replicate. lia.
  - rewrite length_scale. unfold shifted.
    rewrite length_app, length_replicate. lia.
  - rewrite length_shifted by lia. lia.
Qed.

Lemma k_step_horizon_beyond_end_raises_witness :
  (get_k_step_returns 0%nat (qc 4 5) 6 (Some 1%nat) sample_store).2
  = Raise ValueError.
Proof.
  apply (k_step_horizon_beyond_end_raises sample_store 0%nat 1%nat (qc 4 5) 6).
  - vm_compute. lia.
  - reflexivity.
  - intros v x [= <-] _. by exists x.
  - vm_compute. reflexivity.
Defined.

(** X8.  On a trajectory of at most two steps, [get_lambda_returns] with
    [lmda] other than 0 and 1 raises [TypeError] for every truncation
    horizon, with or without values, and leaves the store as it was. *)
Theorem lambda_short_trajectory_raises h rewards values discount lmda T :
  (length (h rewards) <= 2)%nat ->
  lmda <> 0%Qc -> lmda <> 1%Qc ->
  get_lambda_returns rewards discount lmda values T h = (h, Raise TypeError).
Proof.
  intros HN H0 H1. apply lambda_empty_family; [done..|]. lia.
Qed.

Lemma lambda_short_trajectory_raises_witness :
  get_lambda_returns 0%nat (qc 4 5) (qc 3 5) None (-1)
    (store_of [qc 1 1; qc 2 1] [])
  = (store_of [qc 1 1; qc 2 1] [], Raise TypeError).
Proof.
  apply (lambda_short_trajectory_raises (store_of [qc 1 1; qc 2 1] []) 0%nat
           None (qc 4 5) (qc 3 5) (-1)).
  - vm_compute. lia.
  - intros E. apply (f_equal (fun x : Qc => Qnum x)) in E. discriminate.
  - intros E. apply (f_equal (fun x : Qc => Qnum x)) in E. discriminate.
Defined.

(** X9.  On empty rewards with empty values, [get_k_step_returns] passes the
    assertion and raises [IndexError] at [values[-1]], for every horizon,
    leaving the store as it was. *)
Theorem k_step_empty_arrays_raise h rewards v discount K :
  h rewards = [] -> h v = [] ->
  get_k_step_returns rewards discount K (Some v) h = (h, Raise IndexError).
Proof.
  intros Hr Hv. apply k_step_empty_values; [|done]. by rewrite Hr, Hv.
Qed.

Lemma k_step_empty_arrays_raise_witness :
  get_k_step_returns 0%nat (qc 4 5) (-1) (Some 1%nat) (store_of [] [])
  = (store_of [] [], Raise IndexError).
Proof.
  apply (k_step_empty_arrays_raise (store_of [] []) 0%nat 1%nat (qc 4 5) (-1));
    reflexivity.
Defined.

(** ** The store after repeated calls *)

Lemma aligned_same rewards values g1 g2 :
  same_store g1 g2 -> aligned rewards values g2 -> aligned rewards values g1.
Proof. intros H Ha v Hv. rewrite !H. by apply Ha. Qed.

Lemma aligned_overwrite rewards values g :
  aligned rewards values g -> aligned rewards values (overwrite g rewards values).
Proof.
  intros Ha v ->. rewrite length_overwrite, overwrite_values. by apply Ha.
Qed.

Lemma k_step_store rewards values discount k g :
  aligned rewards values g ->
  (get_k_step_returns rewards discount k values g).1 = overwrite g rewards values.
Proof.
  intros Ha. destruct values as [v|]; [|by rewrite k_step_no_values].
  destruct (Ha v eq_refl) as [Hlen Hv].
  destruct (last (g v)) as [x|] eqn:Hx.
  2:{ by apply last_None in Hx. }
  destruct (cast (dtypes g v) (dtypes g rewards) x) as [y|e] eqn:Hy.
  - by rewrite (k_step_values _ _ _ _ _ x y).
  - by rewrite (k_step_cast_raises _ _ _ _ _ x e), (overwrite_raises _ _ _ x e).
Qed.

Lemma dtypes_k_step rewards values discount k g :
  dtypes (get_k_step_returns rewards discount k values g).1 = dtypes g.
Proof.
  destruct values as [v|]; [|by rewrite k_step_no_values].
  destruct (decide (length (g rewards) = length (g v))) as [Hlen|Hne].
  2:{ by rewrite k_step_mismatch. }
  destruct (last (g v)) as [x|] eqn:Hx.
  2:{ apply last_None in Hx. by rewrite k_step_empty_values. }
  destruct (cast (dtypes g v) (dtypes g rewards) x) as [y|e] eqn:Hy.
  - rewrite (k_step_values _ _ _ _ _ x y) by done. apply dtypes_overwrite.
  - by rewrite (k_step_cast_raises _ _ _ _ _ x e).
Qed.

(** X10.  A second call sees what the first one left: after a call with any
    horizon, a call with horizon [K2] on the same arguments returns what it
    would have returned on the original store, and leaves every array as the
    first call left it. *)
Theorem k_step_second_call h rewards values discount K K2 :
  let h1 := (get_k_step_returns rewards discount K values h).1 in
  (get_k_step_returns rewards discount K2 values h1).2
  = (get_k_step_returns rewards discount K2 values h).2
  /\ same_store (get_k_step_returns rewards discount K2 values h1).1 h1.
Proof.
  cbv zeta. destruct values as [v|].
  2:{ rewrite !k_step_no_values. cbn [fst snd]. split; [reflexivity|by intros l]. }
  destruct (decide (length (h rewards) = length (h v))) as [Hlen|Hne].
  2:{ rewrite (k_step_mismatch rewards discount K) by done. cbn [fst snd].
      rewrite !k_step_mismatch by done. split; [reflexivity|by intros l]. }
  destruct (last (h v)) as [x|] eqn:Hx.
  2:{ apply last_None in Hx.
      rewrite (k_step_empty_values rewards discount K) by done. cbn [fst snd].
      rewrite !k_step_empty_values by done. split; [reflexivity|by intros l]. }
  destruct (cast (dtypes h v) (dtypes h rewards) x) as [y|e] eqn:Hy.
  2:{ rewrite (k_step_cast_raises rewards discount K _ _ x e) by done.
      cbn [fst snd]. rewrite !(k_step_cast_raises _ _ K2 _ _ x e) by done.
      split; [reflexivity|by intros l]. }
  rewrite (k_step_values rewards discount K _ _ x y) by done. cbv zeta. cbn [fst].
  set (h1 := overwrite h rewards (Some v)).
  assert (Hlen1 : length (h1 rewards) = length (h1 v)).
  { unfold h1. by rewrite length_overwrite, overwrite_values. }
  assert (Hx1 : last (h1 v) = Some x).
  { unfold h1. by rewrite overwrite_values. }
  assert (Hy1 : cast (dtypes h1 v) (dtypes h1 rewards) x = Ok y).
  { unfold h1. by rewrite dtypes_overwrite. }
  rewrite (k_step_values _ _ K2 _ h1 x y), (k_step_values _ _ K2 _ h x y) by done.
  cbv zeta. cbn [fst snd].
  split; [|apply overwrite_idem]. unfold h1.
  by rewrite (overwrite_idem rewards (Some v) h rewards),
             (overwrite_idem rewards (Some v) h v).
Qed.

Lemma after_step rewards values discount k h g :
  aligned rewards values h ->
  dtypes g = dtypes h ->
  same_store g h \/ same_store g (overwrite h rewards values) ->
  same_store (get_k_step_returns rewards discount k values g).1
             (overwrite h rewards values).
Proof.
  intros Ha Hd [Hg|Hg].
  - rewrite k_step_store by (by apply (aligned_same _ _ _ h)).
    by apply overwrite_same.
  - rewrite k_step_store
      by (by apply (aligned_same _ _ _ (overwrite h rewards values));
          [|apply aligned_overwrite]).
    intros l. rewrite (overwrite_same rewards values g
                         (overwrite h rewards values)) by
      (done || by rewrite dtypes_overwrite).
    apply overwrite_idem.
Qed.

Lemma after_mapM rewards values discount h (ks : list Z) g :
  aligned rewards values h ->
  dtypes g = dtypes h ->
  same_store g (overwrite h rewards values) ->
  let g' := (mapM (fun k => get_k_step_returns rewards discount k values) ks g).1 in
  same_store g' (overwrite h rewards values) /\ dtypes g' = dtypes h.
Proof.
  intros Ha. revert g. induction ks as [|k ks IH]; intros g Hd Hg; [done|].
  cbv zeta. rewrite mapM_M_cons.
  pose proof (after_step rewards values discount k h g Ha Hd (or_intror Hg)) as H1.
  pose proof (dtypes_k_step rewards values discount k g) as Hd1.
  destruct (get_k_step_returns rewards discount k values g) as [g1 [y|e]];
    cbn [fst] in H1, Hd1; [|split; [exact H1|cbn [fst]; congruence]].
  assert (Hd1' : dtypes g1 = dtypes h) by congruence.
  specialize (IH g1 Hd1' H1). cbv zeta in IH.
  by destruct (mapM (fun k => get_k_step_returns rewards discount k values) ks g1)
    as [g2 [ys|e]].
Qed.

Lemma lambda_general_store rewards values discount lmda T' h :
  aligned rewards values h -> 2 <= T' ->
  same_store (lambda_general rewards discount lmda values T' h).1
             (overwrite h rewards values).
Proof.
  intros Ha HT. unfold lambda_general. rewrite range_down_cons by lia.
  unfold mbind at 1, M_bind at 1. rewrite mapM_M_cons.
  pose proof (after_step rewards values discount (T' - 1) h h Ha eq_refl
                (or_introl (fun l => eq_refl))) as H1.
  pose proof (dtypes_k_step rewards values discount (T' - 1) h) as Hd1.
  destruct (get_k_step_returns rewards discount (T' - 1) values h) as [g1 [y|e]];
    cbn [fst] in H1, Hd1; [|done].
  pose proof (after_mapM rewards values discount h
                (range_down (T' - 1 - 1) 0) g1 Ha Hd1 H1) as [H2 Hd2].
  destruct (mapM (fun k => get_k_step_returns rewards discount k values)
              (range_down (T' - 1 - 1) 0) g1) as [g2 [ys|e]];
    cbn [fst] in H2, Hd2; [|done].
  unfold mbind at 1, M_bind at 1, lift at 1.
  destruct (reduce1 _ _) as [pre|e]; [|done].
  unfold mbind at 1, M_bind at 1.
  pose proof (after_step rewards values discount T' h g2 Ha Hd2 (or_intror H2)) as H3.
  destruct (get_k_step_returns rewards discount T' values g2) as [g3 [r|e]];
    cbn [fst] in H3; [|done].
  unfold mbind at 1, M_bind at 1, lift at 1.
  destruct (py_pow _ _) as [w|e]; done.
Qed.

(** X11.  When [get_lambda_returns] makes at least one call of
    [get_k_step_returns] ([lmda] is 0 or 1, or the clamped horizon is at
    least 2), the store it leaves holds, at every location, what a single
    call of [get_k_step_returns] leaves: the last reward overwritten by the
    last value and nothing else changed, however many calls were made. *)
Theorem lambda_store_is_k_step_store h rewards values discount lmda T :
  (1 <= length (h rewards))%nat ->
  (forall v, values = Some v -> length (h v) = length (h rewards)) ->
  lmda = 0%Qc \/ lmda = 1%Qc
  \/ 2 <= Z.min (resolve (length (h rewards)) T)
                (Z.of_nat (length (h rewards)) - 1) ->
  same_store (get_lambda_returns rewards discount lmda values T h).1
             (get_k_step_returns rewards discount 1 values h).1.
Proof.
  intros HN Hv Hcase.
  assert (Ha : aligned rewards values h).
  { intros v Hvv. specialize (Hv v Hvv). split; [done|].
    intros E. rewrite E in Hv. simpl in Hv. lia. }
  rewrite lambda_paths, (k_step_store rewards values discount 1 h Ha).
  destruct (decide (lmda = 0%Qc)) as [|H0]; [by rewrite k_step_store|].
  destruct (decide (lmda = 1%Qc)) as [|H1]; [by rewrite k_step_store|].
  destruct Hcase as [?|[?|HT]]; [done..|].
  by apply lambda_general_store.
Qed.

Lemma lambda_store_is_k_step_store_witness :
  same_store
    (get_lambda_returns 0%nat (qc 4 5) (qc 3 5) (Some 1%nat) 3 sample_store).1
    (get_k_step_returns 0%nat (qc 4 5) 1 (Some 1%nat) sample_store).1.
Proof.
  apply (lambda_store_is_k_step_store sample_store 0%nat (Some 1%nat)
           (qc 4 5) (qc 3 5) 3).
  - vm_compute. lia.
  - intros v [= <-]. reflexivity.
  - right. right. vm_compute. discriminate.
Defined.

(** ** Writing a float into an integer array *)






